(** * Role store and claim pipeline of the JWT secrets plugin

    A shallow embedding of [plugin/path_roles.go] (the role endpoints:
    [pathRolesRead], [pathRolesWrite], [pathRolesDelete], [pathRolesList],
    [pathRoleExistenceCheck], with [getRole] and [setRole]) together with
    the claim-merge pipeline of the sign endpoint, and the properties of the
    design document that concern them.

    Conventions.
    - A Go [map[string]interface{}] is a [gmap string Value]; the dynamic
      types that matter to the code's type switch are the constructors of
      [Value].
    - A handler, which in Go returns a response pointer and an error,
      returns a pair of options; a handler that writes also returns the
      storage it leaves.
    - A compiled regular expression is its pattern text and its matcher.
      [regexp.Compile] is a parameter of the development. *)

From stdpp Require Import gmap strings list fin_maps pretty.
From Stdlib Require Import ZArith Lia Ascii.

Open Scope string_scope.
Open Scope Z_scope.

#[local] Set Warnings "-register-all".

(** ** Values, errors, responses *)

(** The dynamic values a claim may hold. *)
Inductive Value : Type :=
  | VNil
  | VString (s : string)
  | VStringSlice (l : list string)
  | VInt (n : Z)
  | VBool (b : bool)
  | VSlice (l : list Value).

(** What [%T] prints for a value. *)
Definition typeName (v : Value) : string :=
  match v with
  | VNil => "<nil>"
  | VString _ => "string"
  | VStringSlice _ => "[]string"
  | VInt _ => "int"
  | VBool _ => "bool"
  | VSlice _ => "[]interface {}"
  end.

(** Go [error] values: the sentinel [logical.ErrInvalidRequest] (the
    request error of the host), and any other error with its text. *)
Inductive error : Type :=
  | ErrInvalidRequest
  | Errorf (msg : string).

Inductive result (A : Type) : Type :=
  | Ok (a : A)
  | Err (e : error).
Arguments Ok {A} a.
Arguments Err {A} e.

(** A compiled regular expression ([regexp.Regexp]). *)
Record Regexp : Type := mkRegexp {
  expr : string;
  MatchString : string -> bool
}.

(** ** Data model *)

Module Role.
(** [type Role struct] (path_roles.go, lines 34-50). *)
Record t : Type := mk {
  Issuer : string;
  Claims : gmap string Value;
  SubjectPattern : option Regexp;
  AudiencePattern : option Regexp
}.

(** [&Role{}] *)
Definition zero : t :=
  {| Issuer := ""; Claims := ∅; SubjectPattern := None; AudiencePattern := None |}.
End Role.

Module Config.
(** Modelled from the spec: the plugin configuration record, whose
    declaration is not among the sources. The fields are the three that
    [pathRolesWrite] reads ([allowedClaimsMap], [AudiencePattern],
    [MaxAudiences]) and the default token lifetime of the design
    document, in seconds. *)
Record t : Type := mk {
  allowedClaimsMap : gmap string bool;
  AudiencePattern : Regexp;
  MaxAudiences : Z;
  TokenTTL : Z
}.
End Config.

(** What [toResponseData] puts under the keys [issuer], [claims],
    [subject_pattern], [audience_pattern]. *)
Record RoleData : Type := mkRoleData {
  dataIssuer : string;
  dataClaims : gmap string Value;
  dataSubjectPattern : option Regexp;
  dataAudiencePattern : option Regexp
}.

Inductive Response : Type :=
  | ErrorResponse (msg : string)
  | DataResponse (data : RoleData).

Inductive Operation : Type :=
  | CreateOperation
  | UpdateOperation
  | ReadOperation
  | DeleteOperation
  | ListOperation.

(** The fields of the role path schema (lines 67-101) as the typed field
    extractor hands them over: [None] is a field the request left out, so
    [d.GetOk] is the projection itself. *)
Record FieldData : Type := mkFieldData {
  fd_name : option string;
  fd_issuer : option string;
  fd_claims : option (gmap string Value);
  fd_subject_pattern : option string;
  fd_audience_pattern : option string;
  fd_max_allowed_audiences : option Z;
  fd_allowed_claims : option (list string)
}.

(** ** Storage

    [logical.Storage] holds encoded entries by path. An entry either
    decodes to a role or fails to decode; [Get] and [Put] may fail, which
    the two fault maps decide. A failed [Put] writes nothing.

    [EntryRole r] is the entry encoded from the role [r]. The encoding is
    JSON, which keeps the text of the issuer, the keys of the claims and
    the claims that are strings (text being what the host hands over), and
    does not keep the Go type of other claims: a list of strings decodes
    as a list of interfaces, an int as a number. Nothing below relies on
    the value of such a claim after it was read back. *)
Inductive StorageEntry : Type :=
  | EntryRole (r : Role.t)
  | EntryUndecodable (e : error).

Record Storage : Type := mkStorage {
  kv : gmap string StorageEntry;
  getFault : string -> option error;
  putFault : string -> option error
}.

Definition Storage_Get (stg : Storage) (key : string) : result (option StorageEntry) :=
  match getFault stg key with
  | Some e => Err e
  | None => Ok (kv stg !! key)
  end.

Definition Storage_Put (stg : Storage) (key : string) (entry : StorageEntry)
  : option error * Storage :=
  match putFault stg key with
  | Some e => (Some e, stg)
  | None => (None, {| kv := <[key := entry]> (kv stg);
                      getFault := getFault stg;
                      putFault := putFault stg |})
  end.

Definition DecodeJSON (entry : StorageEntry) : result Role.t :=
  match entry with
  | EntryRole r => Ok r
  | EntryUndecodable e => Err e
  end.

Definition keyStorageRolePath : string := "role".

(** [path.Join] of two elements; on role names, which hold no slash and
    start with a word character, cleaning the joined path changes nothing. *)
Definition path_Join (a b : string) : string :=
  if decide (b = "") then a else a +:+ "/" +:+ b.

(** ** The role endpoints *)

(** [getRole] (lines 274-294). *)
Definition getRole (stg : Storage) (name : string) : result (option Role.t) :=
  if decide (name = "") then Err (Errorf "missing role name")
  else
    match Storage_Get stg (path_Join keyStorageRolePath name) with
    | Err e => Err e
    | Ok None => Ok None
    | Ok (Some entry) =>
        match DecodeJSON entry with
        | Err e => Err e
        | Ok role => Ok (Some role)
        end
    end.

(** [setRole] (lines 297-312). Encoding a role that came out of a request
    succeeds, so the two early returns on the encoder do not arise. *)
Definition setRole (stg : Storage) (name : string) (role : Role.t)
  : option error * Storage :=
  Storage_Put stg (path_Join keyStorageRolePath name) (EntryRole role).

(** [toResponseData] (lines 53-61). *)
Definition toResponseData (r : Role.t) : RoleData :=
  {| dataIssuer := Role.Issuer r;
     dataClaims := Role.Claims r;
     dataSubjectPattern := Role.SubjectPattern r;
     dataAudiencePattern := Role.AudiencePattern r |}.

(** [pathRolesRead] (lines 155-168), on the role name the path carries. *)
Definition pathRolesRead (stg : Storage) (name : string)
  : option Response * option error :=
  match getRole stg name with
  | Err err => (None, Some err)
  | Ok None => (None, None)
  | Ok (Some role) => (Some (DataResponse (toResponseData role)), None)
  end.

(** [allowedClaim, ok := config.allowedClaimsMap[claim]; !ok || !allowedClaim]
    is the negation of this test. *)
Definition claimAllowed (config : Config.t) (claim : string) : bool :=
  match Config.allowedClaimsMap config !! claim with
  | Some allowedClaim => allowedClaim
  | None => false
  end.

(** The loop of lines 220-224 over the keys in the order the range visits
    them: the first key that is not allowed, if any. *)
Fixpoint rangeNotPermitted (config : Config.t) (keys : list string) : option string :=
  match keys with
  | [] => None
  | claim :: rest =>
      if claimAllowed config claim then rangeNotPermitted config rest
      else Some claim
  end.

(** The order in which [range] visits the keys of a claims map. Go leaves
    it unspecified; the model takes the order of [map_to_list], and no
    statement below depends on which order it is. *)
Definition rangeKeys (claims : gmap string Value) : list string :=
  (map_to_list claims).*1.

(** Lines 236-255: the checks on a static [aud] claim. *)
Definition checkAud (config : Config.t) (rawAud : Value) : option Response :=
  match rawAud with
  | VString aud =>
      if MatchString (Config.AudiencePattern config) aud then None
      else Some (ErrorResponse "validation of 'aud' claim failed")
  | VStringSlice aud =>
      if (Config.MaxAudiences config >? -1)
         && (Z.of_nat (length aud) >? Config.MaxAudiences config)
      then Some (ErrorResponse ("too many audience claims: " +:+ pretty (length aud)))
      else if forallb (MatchString (Config.AudiencePattern config)) aud then None
      else Some (ErrorResponse "validation of 'aud' claim failed")
  | _ =>
      Some (ErrorResponse
              ("'aud' claim was " +:+ typeName rawAud +:+ ", not string or []string"))
  end.

(** Lines 219-255: the validation of the role about to be stored. [Some]
    is the error response that the handler returns together with
    [logical.ErrInvalidRequest]. *)
Definition checkClaims (config : Config.t) (role : Role.t) : option Response :=
  match rangeNotPermitted config (rangeKeys (Role.Claims role)) with
  | Some claim => Some (ErrorResponse ("claim " +:+ claim +:+ " not permitted"))
  | None =>
      match Role.Claims role !! "iss" with
      | Some _ => Some (ErrorResponse "'iss' claim cannot be present in 'claims' field")
      | None =>
          match Role.Claims role !! "sub" with
          | Some _ => Some (ErrorResponse "'sub' claim cannot be present in 'claims' field")
          | None =>
              match Role.Claims role !! "aud" with
              | Some rawAud => checkAud config rawAud
              | None => None
              end
          end
      end
  end.

Section Handlers.

(** [regexp.Compile]. *)
Context (Compile : string -> result Regexp).

(** Lines 193-217: the request's fields applied to the role. *)
Definition updateRole (op : Operation) (d : FieldData) (role : Role.t)
  : result Role.t :=
  let createOperation := match op with CreateOperation => true | _ => false end in
  match
    match fd_issuer d with
    | Some newIssuer =>
        Ok {| Role.Issuer := newIssuer;
              Role.Claims := Role.Claims role;
              Role.SubjectPattern := Role.SubjectPattern role;
              Role.AudiencePattern := Role.AudiencePattern role |}
    | None =>
        if createOperation then Err (Errorf "missing issuer in role") else Ok role
    end
  with
  | Err e => Err e
  | Ok role =>
      let role :=
        match fd_claims d with
        | Some newClaims =>
            {| Role.Issuer := Role.Issuer role;
               Role.Claims := newClaims;
               Role.SubjectPattern := Role.SubjectPattern role;
               Role.AudiencePattern := Role.AudiencePattern role |}
        | None => role
        end in
      match
        match fd_audience_pattern d with
        | Some newAudiencePattern =>
            match Compile newAudiencePattern with
            | Err e => Err e
            | Ok pattern =>
                Ok {| Role.Issuer := Role.Issuer role;
                      Role.Claims := Role.Claims role;
                      Role.SubjectPattern := Role.SubjectPattern role;
                      Role.AudiencePattern := Some pattern |}
            end
        | None => Ok role
        end
      with
      | Err e => Err e
      | Ok role =>
          match fd_subject_pattern d with
          | Some newSubjectPattern =>
              match Compile newSubjectPattern with
              | Err e => Err e
              | Ok pattern =>
                  Ok {| Role.Issuer := Role.Issuer role;
                        Role.Claims := Role.Claims role;
                        Role.SubjectPattern := Some pattern;
                        Role.AudiencePattern := Role.AudiencePattern role |}
              end
          | None => Ok role
          end
      end
  end.

(** [pathRolesWrite] (lines 171-262). [getConfig] is the outcome of
    [b.getConfig], which is not among the sources. *)
Definition pathRolesWrite (stg : Storage) (getConfig : result Config.t)
    (op : Operation) (d : FieldData)
  : option Response * option error * Storage :=
  match fd_name d with
  | None => (Some (ErrorResponse "missing role name"), None, stg)
  | Some name =>
      match getRole stg name with
      | Err err => (None, Some err, stg)
      | Ok stored =>
          let role := match stored with Some role => role | None => Role.zero end in
          match getConfig with
          | Err err => (None, Some err, stg)
          | Ok config =>
              match updateRole op d role with
              | Err err => (None, Some err, stg)
              | Ok role =>
                  match checkClaims config role with
                  | Some resp => (Some resp, Some ErrInvalidRequest, stg)
                  | None =>
                      match setRole stg name role with
                      | (Some err, stg') => (None, Some err, stg')
                      | (None, stg') => (None, None, stg')
                      end
                  end
              end
          end
      end
  end.

End Handlers.

(** ** The claim pipeline of the sign endpoint *)

Module Sign.

(** Modelled from the spec: the ways the merge of section 4.1 rejects a
    request. The sign handler is not among the sources; every one of
    these reaches the caller as a request error and no token is made. *)
Inductive MergeError : Type :=
  | ReservedClaim (claim : string)
  | RoleClaimOverride (claim : string)
  | ClaimNotAllowed (claim : string)
  | SubjectRejected
  | AudienceRejected
  | TooManyAudiences (n : nat)
  | MalformedClaim (claim : string) (type : string).

Inductive outcome : Type :=
  | Merged (finalClaims : gmap string Value)
  | Rejected (e : MergeError).

(** Modelled from the spec: the reserved structural keys of step 1. *)
Definition reservedStructural : list string := ["iss"; "exp"; "iat"; "nbf"; "jti"].

(** Modelled from the spec: effective audience pattern, the role's if
    set, else the config's (step 4). *)
Definition effectiveAudiencePattern (role : Role.t) (config : Config.t) : Regexp :=
  match Role.AudiencePattern role with
  | Some p => p
  | None => Config.AudiencePattern config
  end.

(** Modelled from the spec: effective maximum audience count, the role's
    if set, else the config's (step 4). [Role] of path_roles.go has no
    such field, so the role's value is an argument of its own. *)
Definition effectiveMaxAudiences (roleMaxAudiences : option Z) (config : Config.t) : Z :=
  match roleMaxAudiences with
  | Some n => n
  | None => Config.MaxAudiences config
  end.

(** Modelled from the spec: step 3, the check of a requested [sub]. *)
Definition checkSub (role : Role.t) (requestClaims : gmap string Value)
  : option MergeError :=
  match requestClaims !! "sub" with
  | None => None
  | Some (VString sub) =>
      match Role.SubjectPattern role with
      | Some p => if MatchString p sub then None else Some SubjectRejected
      | None => None
      end
  | Some v => Some (MalformedClaim "sub" (typeName v))
  end.

(** Modelled from the spec: step 4, the check of a requested [aud]. *)
Definition checkAud (pattern : Regexp) (maxAudiences : Z)
    (requestClaims : gmap string Value) : option MergeError :=
  match requestClaims !! "aud" with
  | None => None
  | Some (VString aud) =>
      if MatchString pattern aud then None else Some AudienceRejected
  | Some (VStringSlice aud) =>
      if negb (maxAudiences =? -1) && (Z.of_nat (length aud) >? maxAudiences)
      then Some (TooManyAudiences (length aud))
      else if forallb (MatchString pattern) aud then None
      else Some AudienceRejected
  | Some v => Some (MalformedClaim "aud" (typeName v))
  end.

(** Modelled from the spec: step 5, the composed claim set. The request's
    claims lie over the role's, the computed claims are set last. *)
Definition compose (role : Role.t) (config : Config.t)
    (requestClaims : gmap string Value) (now : Z) (jti : string)
  : gmap string Value :=
  <["jti" := VString jti]>
    (<["exp" := VInt (now + Config.TokenTTL config)]>
       (<["nbf" := VInt now]>
          (<["iat" := VInt now]>
             (<["iss" := VString (Role.Issuer role)]>
                (requestClaims ∪ Role.Claims role))))).

(** Modelled from the spec: [merge] of section 4.1, the steps in their
    order. [now] is the clock's reading and [jti] the fresh identifier. *)
Definition merge (role : Role.t) (roleMaxAudiences : option Z) (config : Config.t)
    (requestClaims : gmap string Value) (now : Z) (jti : string) : outcome :=
  match filter (λ k, is_Some (requestClaims !! k)) reservedStructural with
  | claim :: _ => Rejected (ReservedClaim claim)
  | [] =>
      match filter (λ k, is_Some (Role.Claims role !! k))
                   (rangeKeys requestClaims) with
      | claim :: _ => Rejected (RoleClaimOverride claim)
      | [] =>
          match filter (λ k, k ≠ "aud" ∧ k ≠ "sub" ∧ claimAllowed config k = false)
                       (rangeKeys requestClaims) with
          | claim :: _ => Rejected (ClaimNotAllowed claim)
          | [] =>
              match checkSub role requestClaims with
              | Some e => Rejected e
              | None =>
                  match checkAud (effectiveAudiencePattern role config)
                                 (effectiveMaxAudiences roleMaxAudiences config)
                                 requestClaims with
                  | Some e => Rejected e
                  | None => Merged (compose role config requestClaims now jti)
                  end
              end
          end
      end
  end.

End Sign.

(** ** What the design document says, in its own words *)

(** The role write of [name] gets as far as the validation of [role]: the
    name is given, the stored role loads, and the request's fields apply
    (the issuer is there on a create, the patterns compile). *)
Definition WriteReaches (Compile : string -> result Regexp) (stg : Storage)
    (op : Operation) (d : FieldData) (name : string) (role : Role.t) : Prop :=
  fd_name d = Some name ∧
  ∃ stored, getRole stg name = Ok stored ∧
            updateRole Compile op d (default Role.zero stored) = Ok role.

(** A static [aud] as the write should accept it, by the document: a
    string matching the config pattern, or a list of strings no longer
    than the config ceiling (when that is above -1) whose every element
    matches the config pattern. *)
Definition spec_audAcceptable (config : Config.t) (aud : Value) : bool :=
  match aud with
  | VString a => MatchString (Config.AudiencePattern config) a
  | VStringSlice l =>
      bool_decide (Config.MaxAudiences config > -1 →
                   Z.of_nat (length l) ≤ Config.MaxAudiences config)
      && bool_decide (Forall (λ a, MatchString (Config.AudiencePattern config) a = true) l)
  | _ => false
  end.

(** The validation failures of a role write, as the document lists them. *)
Definition ValidationFails (config : Config.t) (claims : gmap string Value) : Prop :=
  (∃ k, is_Some (claims !! k) ∧ claimAllowed config k = false)
  ∨ is_Some (claims !! "iss")
  ∨ is_Some (claims !! "sub")
  ∨ (∃ a, claims !! "aud" = Some (VString a)
          ∧ MatchString (Config.AudiencePattern config) a = false)
  ∨ (∃ l, claims !! "aud" = Some (VStringSlice l)
          ∧ ((Config.MaxAudiences config > -1
              ∧ Z.of_nat (length l) > Config.MaxAudiences config)
             ∨ ∃ a, a ∈ l ∧ MatchString (Config.AudiencePattern config) a = false))
  ∨ (∃ v, claims !! "aud" = Some v
          ∧ (∀ a, v ≠ VString a) ∧ (∀ l, v ≠ VStringSlice l)).

(** The request [d] with the field [max_allowed_audiences] set to [n]. *)
Definition withMaxAllowedAudiences (n : option Z) (d : FieldData) : FieldData :=
  {| fd_name := fd_name d;
     fd_issuer := fd_issuer d;
     fd_claims := fd_claims d;
     fd_subject_pattern := fd_subject_pattern d;
     fd_audience_pattern := fd_audience_pattern d;
     fd_max_allowed_audiences := n;
     fd_allowed_claims := fd_allowed_claims d |}.


(** ** Fixtures: the values of the package's tests *)

Module Fixture.

Definition matchAll : Regexp := mkRegexp ".*" (λ _, true).

(** The pattern [^lit$] for a text [lit] without metacharacters. *)
Definition exactly (lit : string) : Regexp :=
  mkRegexp ("^" +:+ lit +:+ "$") (λ s, bool_decide (s = lit)).

(** [regexp.Compile] on the three patterns the examples use; the pattern
    of one open parenthesis is the malformed one. *)
Definition Compile (s : string) : result Regexp :=
  if decide (s = ".*") then Ok matchAll
  else if decide (s = "^internal$") then Ok (exactly "internal")
  else if decide (s = "(") then Err (Errorf "error parsing regexp: missing closing )")
  else Err (Errorf "pattern outside the examples").

Definition emptyStorage : Storage :=
  {| kv := ∅; getFault := λ _, None; putFault := λ _, None |}.

(** The config of a fresh backend with the given allow-list. *)
Definition configAllowing (claims : list string) : Config.t :=
  {| Config.allowedClaimsMap := list_to_map ((λ c, (c, true)) <$> claims);
     Config.AudiencePattern := matchAll;
     Config.MaxAudiences := -1;
     Config.TokenTTL := 3 * 60 |}.

(** [writeRole] of the tests: a create with issuer and claims. *)
Definition roleRequest (name issuer : string) (claims : gmap string Value) : FieldData :=
  {| fd_name := Some name;
     fd_issuer := Some issuer;
     fd_claims := Some claims;
     fd_subject_pattern := None;
     fd_audience_pattern := None;
     fd_max_allowed_audiences := None;
     fd_allowed_claims := None |}.

Definition testerRole (claims : gmap string Value) : Role.t :=
  {| Role.Issuer := "tester.example.com";
     Role.Claims := claims;
     Role.SubjectPattern := None;
     Role.AudiencePattern := None |}.

End Fixture.

(** ** The other role endpoints: existence check, list, delete *)

(** [err.Error()]. *)
Definition errorText (e : error) : string :=
  match e with
  | ErrInvalidRequest => "invalid request"
  | Errorf msg => msg
  end.

(** [Storage.Delete]. The fault that the store meets, if it meets one, is
    an argument; deleting a key that is not there is no error. *)
Definition Storage_Delete (fault : option error) (stg : Storage) (key : string)
  : option error * Storage :=
  match fault with
  | Some e => (Some e, stg)
  | None => (None, {| kv := delete key (kv stg);
                      getFault := getFault stg;
                      putFault := putFault stg |})
  end.

(** [strings.TrimPrefix] that also tells whether the prefix was there. *)
Fixpoint trimPrefix (prefix s : string) : option string :=
  match prefix with
  | EmptyString => Some s
  | String c prefix' =>
      match s with
      | EmptyString => None
      | String c' s' => if decide (c = c') then trimPrefix prefix' s' else None
      end
  end.

(** The part of a path up to and with its first slash; all of it when it
    has none. *)
Fixpoint firstElement (s : string) : string :=
  match s with
  | EmptyString => EmptyString
  | String c s' =>
      if decide (c = "/"%char) then String c EmptyString
      else String c (firstElement s')
  end.

Fixpoint hasSlash (s : string) : bool :=
  match s with
  | EmptyString => false
  | String c s' => if decide (c = "/"%char) then true else hasSlash s'
  end.

(** [Storage.List]: of the keys under the prefix, what follows the prefix,
    cut after its first slash, each once. The interface fixes no order;
    the statements below are about membership. *)
Definition Storage_List (fault : option error) (stg : Storage) (prefix : string)
  : result (list string) :=
  match fault with
  | Some e => Err e
  | None =>
      Ok (remove_dups
            (omap (λ key, firstElement <$> trimPrefix prefix key)
                  (map_to_list (kv stg)).*1))
  end.

(** [pathRoleExistenceCheck] (lines 133-142). *)
Definition pathRoleExistenceCheck (stg : Storage) (name : string) : bool * option error :=
  match Storage_Get stg (path_Join keyStorageRolePath name) with
  | Err err => (false, Some err)
  | Ok role => (bool_decide (role ≠ None), None)
  end.

(** [pathRolesList] (lines 145-152). The response of [logical.ListResponse]
    is given by the keys it carries. *)
Definition pathRolesList (listFault : option error) (stg : Storage)
  : option (list string) * option error :=
  match Storage_List listFault stg (keyStorageRolePath +:+ "/") with
  | Err err => (None, Some err)
  | Ok entries => (Some entries, None)
  end.

(** [pathRolesDelete] (lines 265-271). *)
Definition pathRolesDelete (deleteFault : option error) (stg : Storage) (name : string)
  : option Response * option error * Storage :=
  match Storage_Delete deleteFault stg (path_Join keyStorageRolePath name) with
  | (Some err, stg') =>
      (None, Some (Errorf ("error deleting role: " +:+ errorText err)), stg')
  | (None, stg') => (None, None, stg')
  end.

(** The request's fields over the role [old], field by field: what a
    write that goes through leaves in the store. *)
Definition FieldsApplied (Compile : string -> result Regexp) (d : FieldData)
    (old role : Role.t) : Prop :=
  Role.Issuer role = default (Role.Issuer old) (fd_issuer d)
  ∧ Role.Claims role = default (Role.Claims old) (fd_claims d)
  ∧ match fd_audience_pattern d with
    | Some text => ∃ p, Compile text = Ok p ∧ Role.AudiencePattern role = Some p
    | None => Role.AudiencePattern role = Role.AudiencePattern old
    end
  ∧ match fd_subject_pattern d with
    | Some text => ∃ p, Compile text = Ok p ∧ Role.SubjectPattern role = Some p
    | None => Role.SubjectPattern role = Role.SubjectPattern old
    end.

(** A store without faults that holds one entry. *)
Definition storageHolding (key : string) (entry : StorageEntry) : Storage :=
  {| kv := {[key := entry]}; getFault := λ _, None; putFault := λ _, None |}.

(** A request that carries the role name and nothing else. *)
Definition nameOnly (name : string) : FieldData :=
  {| fd_name := Some name;
     fd_issuer := None;
     fd_claims := None;
     fd_subject_pattern := None;
     fd_audience_pattern := None;
     fd_max_allowed_audiences := None;
     fd_allowed_claims := None |}.


(** * Properties *)

(** ** Auxiliary facts about the range over a claims map *)

Lemma elem_of_rangeKeys (claims : gmap string Value) (k : string) :
  k ∈ rangeKeys claims ↔ is_Some (claims !! k).
Proof.
  unfold rangeKeys. rewrite list_elem_of_fmap. split.
  - intros [[k' v] [-> Hin]]. apply elem_of_map_to_list in Hin. by exists v.
  - intros [v Hv]. exists (k, v). split; [done|]. by apply elem_of_map_to_list.
Qed.

Lemma rangeNotPermitted_Some config keys claim :
  rangeNotPermitted config keys = Some claim →
  claim ∈ keys ∧ claimAllowed config claim = false.
Proof.
  induction keys as [|k keys IH]; simpl; [done|].
  destruct (claimAllowed config k) eqn:Hk.
  - intros H. destruct (IH H) as [Hin Hna]. split; [by right | done].
  - intros [= <-]. split; [by left | done].
Qed.

Lemma rangeNotPermitted_None config keys :
  rangeNotPermitted config keys = None ↔
  ∀ k, k ∈ keys → claimAllowed config k = true.
Proof.
  induction keys as [|k keys IH]; simpl.
  - split; [|done]. intros _ k Hk. by apply elem_of_nil in Hk.
  - destruct (claimAllowed config k) eqn:Hk.
    + rewrite IH. split.
      * intros H k' Hk'. apply elem_of_cons in Hk' as [->|Hk']; auto.
      * intros H k' Hk'. apply H. by right.
    + split; [done|]. intros H. specialize (H k (list_elem_of_here _ _)). congruence.
Qed.

(** ** Auxiliary facts about the role write *)

Section RoleWrite.

Context (Compile : string -> result Regexp).

Lemma updateRole_claims op d role role' claims :
  updateRole Compile op d role = Ok role' →
  fd_claims d = Some claims →
  Role.Claims role' = claims.
Proof.
  unfold updateRole. intros H Hc. rewrite Hc in H.
  destruct (fd_issuer d), op, (fd_audience_pattern d) as [ap|],
    (fd_subject_pattern d) as [sp|]; simpl in H;
    repeat match type of H with
           | context [Compile ?s] => destruct (Compile s); simpl in H
           end;
    by inversion H.
Qed.

(** Once the write reaches the validation, its outcome is the verdict of
    [checkClaims], followed by the put. *)
Lemma pathRolesWrite_checked stg config op d name role :
  WriteReaches Compile stg op d name role →
  pathRolesWrite Compile stg (Ok config) op d =
    match checkClaims config role with
    | Some resp => (Some resp, Some ErrInvalidRequest, stg)
    | None => (None, (setRole stg name role).1, (setRole stg name role).2)
    end.
Proof.
  intros (Hname & stored & Hget & Hupd).
  unfold pathRolesWrite. rewrite Hname, Hget.
  replace (match stored with Some role0 => role0 | None => Role.zero end)
    with (default Role.zero stored) by by destruct stored.
  rewrite Hupd. destruct (checkClaims config role); [done|].
  by destruct (setRole stg name role) as [[e|] stg'].
Qed.

(** Whatever the request, a write that reports anything but plain
    success hands back the storage it was given. *)
Lemma pathRolesWrite_failure_keeps_storage stg getConfig op d resp err stg' :
  pathRolesWrite Compile stg getConfig op d = (resp, err, stg') →
  resp ≠ None ∨ err ≠ None →
  stg' = stg.
Proof.
  unfold pathRolesWrite, setRole, Storage_Put.
  destruct (fd_name d) as [name|]; [|by intros [= <- <- <-]].
  destruct (getRole stg name) as [stored|e]; [|by intros [= <- <- <-]].
  destruct getConfig as [config|e]; [|by intros [= <- <- <-]].
  destruct (updateRole _ _ _ _) as [role|e]; [|by intros [= <- <- <-]].
  destruct (checkClaims config role); [by intros [= <- <- <-]|].
  destruct (putFault stg _); [by intros [= <- <- <-]|].
  intros [= <- <- <-]. by intros [?|?].
Qed.

End RoleWrite.

Lemma checkAud_response config v resp :
  checkAud config v = Some resp → ∃ msg, resp = ErrorResponse msg.
Proof.
  destruct v; simpl; repeat case_match; intros [= <-]; eauto.
Qed.

Lemma checkClaims_response config role resp :
  checkClaims config role = Some resp → ∃ msg, resp = ErrorResponse msg.
Proof.
  unfold checkClaims. repeat case_match; try (intros [= <-]; eauto; fail).
  apply checkAud_response.
Qed.

(** The first check names a key that is in the map and is not allowed. *)
Lemma checkClaims_not_permitted config role :
  (∃ k, is_Some (Role.Claims role !! k) ∧ claimAllowed config k = false) →
  ∃ k, is_Some (Role.Claims role !! k) ∧ claimAllowed config k = false ∧
       checkClaims config role = Some (ErrorResponse ("claim " +:+ k +:+ " not permitted")).
Proof.
  intros (k & Hk & Hna). unfold checkClaims.
  destruct (rangeNotPermitted config (rangeKeys (Role.Claims role))) as [c|] eqn:Hr.
  - apply rangeNotPermitted_Some in Hr as [Hin Hc].
    exists c. by rewrite elem_of_rangeKeys in Hin.
  - rewrite rangeNotPermitted_None in Hr.
    rewrite <- elem_of_rangeKeys in Hk. specialize (Hr k Hk). congruence.
Qed.

Lemma checkClaims_None_allowed config role :
  checkClaims config role = None →
  ∀ k, is_Some (Role.Claims role !! k) → claimAllowed config k = true.
Proof.
  intros Hc k Hk. destruct (claimAllowed config k) eqn:Hna; [done|].
  destruct (checkClaims_not_permitted config role) as (k' & _ & _ & H'); [eauto|].
  congruence.
Qed.

(** With every key allowed and neither [iss] nor [sub] in the map, the
    verdict is the one on [aud]. *)
Lemma checkClaims_aud config role :
  (∀ k, is_Some (Role.Claims role !! k) → claimAllowed config k = true) →
  Role.Claims role !! "iss" = None →
  Role.Claims role !! "sub" = None →
  checkClaims config role =
    match Role.Claims role !! "aud" with
    | Some rawAud => checkAud config rawAud
    | None => None
    end.
Proof.
  intros Hall Hiss Hsub. unfold checkClaims.
  destruct (rangeNotPermitted config (rangeKeys (Role.Claims role))) as [c|] eqn:Hr.
  - apply rangeNotPermitted_Some in Hr as [Hin Hc].
    rewrite elem_of_rangeKeys in Hin. specialize (Hall c Hin). congruence.
  - by rewrite Hiss, Hsub.
Qed.

Lemma checkAud_spec config v :
  checkAud config v = None ↔ spec_audAcceptable config v = true.
Proof.
  destruct v as [|a|l|n|b|vs]; simpl; try (split; discriminate).
  - destruct (MatchString _ a); split; done.
  - rewrite andb_true_iff, !bool_decide_eq_true.
    destruct (_ && _) eqn:Hmax.
    + apply andb_true_iff in Hmax as [H1 H2].
      split; [done|]. intros [H _]. lia.
    + apply andb_false_iff in Hmax.
      destruct (forallb _ l) eqn:Hall.
      * split; [intros _|done]. split; [lia|].
        apply Forall_forall. intros a Ha.
        rewrite forallb_forall in Hall. apply Hall. by apply list_elem_of_In.
      * split; [done|]. intros [_ HF].
        assert (forallb (MatchString (Config.AudiencePattern config)) l = true); [|congruence].
        apply forallb_forall. intros a Ha. rewrite Forall_forall in HF.
        apply HF. by apply list_elem_of_In.
Qed.

Lemma checkClaims_rejects config role :
  ValidationFails config (Role.Claims role) →
  ∃ msg, checkClaims config role = Some (ErrorResponse msg).
Proof.
  intros Hv.
  destruct (checkClaims config role) as [resp|] eqn:Hc.
  { destruct (checkClaims_response _ _ _ Hc) as [msg ->]. eauto. }
  exfalso.
  pose proof (checkClaims_None_allowed _ _ Hc) as Hall.
  assert (Role.Claims role !! "iss" = None) as Hiss.
  { unfold checkClaims in Hc. repeat case_match; congruence. }
  assert (Role.Claims role !! "sub" = None) as Hsub.
  { unfold checkClaims in Hc. repeat case_match; congruence. }
  rewrite (checkClaims_aud _ _ Hall Hiss Hsub) in Hc.
  destruct Hv as [(k & Hk & Hna)|[[v Hv]|[[v Hv]|[(a & Ha & Hm)|[(l & Hl & Hbad)|(v & Hv & Hs & Hl)]]]]].
  - specialize (Hall k Hk). congruence.
  - congruence.
  - congruence.
  - rewrite Ha in Hc. simpl in Hc. by rewrite Hm in Hc.
  - rewrite Hl in Hc. apply checkAud_spec in Hc. simpl in Hc.
    apply andb_true_iff in Hc as [H1 H2].
    apply bool_decide_eq_true in H1, H2.
    destruct Hbad as [[? ?]|(a & Ha & Hm)]; [lia|].
    rewrite Forall_forall in H2. specialize (H2 a Ha). congruence.
  - rewrite Hv in Hc. destruct v; simpl in Hc; try discriminate.
    + by eapply Hs.
    + by eapply Hl.
Qed.

(** ** The role write *)

(** C1, as the code has it: a role write whose submitted claims map holds
    [iss] or [sub] fails with a request error and stores nothing, whatever
    the config's allow-list; a map holding any other key, the reserved
    [exp], [iat], [nbf] and [jti] among them, fails in the same way when
    the config's allow-list does not list that key. *)
Theorem role_write_rejects_iss_sub_and_unlisted
    Compile stg config op d name role (claims : gmap string Value) (k : string) :
  WriteReaches Compile stg op d name role →
  fd_claims d = Some claims →
  is_Some (claims !! k) →
  k = "iss" ∨ k = "sub" ∨ claimAllowed config k = false →
  ∃ msg, pathRolesWrite Compile stg (Ok config) op d
         = (Some (ErrorResponse msg), Some ErrInvalidRequest, stg).
Proof.
  intros Hreach Hclaims Hk Hwhich.
  rewrite (pathRolesWrite_checked _ _ _ _ _ _ _ Hreach).
  destruct Hreach as (_ & stored & _ & Hupd).
  rewrite <- (updateRole_claims _ _ _ _ _ _ Hupd Hclaims) in Hk.
  destruct (checkClaims_rejects config role) as [msg ->]; [|eauto].
  unfold ValidationFails.
  destruct Hwhich as [->|[->|Hna]]; [by right; left|by right; right; left|].
  left. eauto.
Qed.

Lemma role_write_rejects_iss_sub_and_unlisted_witness :
  ∃ msg,
    pathRolesWrite Fixture.Compile Fixture.emptyStorage
      (Ok (Fixture.configAllowing ["iss"; "aud"])) CreateOperation
      (Fixture.roleRequest "tester" "tester.example.com" {["iss" := VString "other"]})
    = (Some (ErrorResponse msg), Some ErrInvalidRequest, Fixture.emptyStorage).
Proof.
  eapply (role_write_rejects_iss_sub_and_unlisted Fixture.Compile Fixture.emptyStorage
            (Fixture.configAllowing ["iss"; "aud"]) CreateOperation
            (Fixture.roleRequest "tester" "tester.example.com" {["iss" := VString "other"]})
            "tester" (Fixture.testerRole {["iss" := VString "other"]})
            {["iss" := VString "other"]} "iss").
  - split; [reflexivity|]. exists None. split; reflexivity.
  - reflexivity.
  - exists (VString "other"). reflexivity.
  - left. reflexivity.
Defined.

(** C1 fails as stated: with [exp] on the config's allow-list, a create
    whose claims map holds the reserved key [exp] succeeds and the role is
    stored with that claim. *)
Lemma role_write_stores_allowed_exp :
  let claims : gmap string Value := {["exp" := VInt 1234]} in
  let result :=
    pathRolesWrite Fixture.Compile Fixture.emptyStorage
      (Ok (Fixture.configAllowing ["exp"])) CreateOperation
      (Fixture.roleRequest "tester" "tester.example.com" claims) in
  is_Some (claims !! "exp")
  ∧ result.1 = (None, None)
  ∧ kv result.2 !! "role/tester" = Some (EntryRole (Fixture.testerRole claims)).
Proof.
  split; [by eexists|]. split; [reflexivity|]. vm_compute. reflexivity.
Qed.

(** C3: the handler never looks at the field [max_allowed_audiences]: a
    write with the field set, to any value, does what the write without it
    does, so no ceiling reaches the stored role. *)
Theorem role_write_drops_max_allowed_audiences
    Compile stg getConfig op (d : FieldData) (n : option Z) :
  pathRolesWrite Compile stg getConfig op (withMaxAllowedAudiences n d)
  = pathRolesWrite Compile stg getConfig op d.
Proof. reflexivity. Qed.

(** A create that asks for a ceiling of one audience stores the role that
    has issuer and claims and nothing else. *)
Example role_write_with_ceiling_of_one :
  let d := withMaxAllowedAudiences (Some 1)
             (Fixture.roleRequest "tester" "tester.example.com" ∅) in
  let result :=
    pathRolesWrite Fixture.Compile Fixture.emptyStorage
      (Ok (Fixture.configAllowing ["aud"])) CreateOperation d in
  result.1 = (None, None)
  ∧ kv result.2 !! "role/tester" = Some (EntryRole (Fixture.testerRole ∅)).
Proof. split; [reflexivity|]. vm_compute. reflexivity. Qed.

(** C4, as the code has it: every key of the submitted claims map, [aud]
    included, has to be on the config's allow-list. A map with a key that
    is not listed is rejected with a request error that names such a key
    and nothing is stored; a write that is accepted had every key listed. *)
Theorem role_write_requires_every_claim_allowed
    Compile stg config op d name role (claims : gmap string Value) :
  WriteReaches Compile stg op d name role →
  fd_claims d = Some claims →
  ((∃ k, is_Some (claims !! k) ∧ claimAllowed config k = false) →
   ∃ k, is_Some (claims !! k) ∧ claimAllowed config k = false ∧
        pathRolesWrite Compile stg (Ok config) op d
        = (Some (ErrorResponse ("claim " +:+ k +:+ " not permitted")),
           Some ErrInvalidRequest, stg))
  ∧ (∀ stg', pathRolesWrite Compile stg (Ok config) op d = (None, None, stg') →
             ∀ k, is_Some (claims !! k) → claimAllowed config k = true).
Proof.
  intros Hreach Hclaims.
  rewrite (pathRolesWrite_checked _ _ _ _ _ _ _ Hreach).
  destruct Hreach as (_ & stored & _ & Hupd).
  rewrite <- (updateRole_claims _ _ _ _ _ _ Hupd Hclaims).
  split.
  - intros Hbad.
    destruct (checkClaims_not_permitted config role Hbad) as (k & Hk & Hna & ->).
    eauto.
  - intros stg' Hres.
    destruct (checkClaims config role) eqn:Hc; [discriminate|].
    by apply checkClaims_None_allowed.
Qed.

Lemma role_write_requires_every_claim_allowed_witness :
  ∃ k, is_Some (({["aud" := VString "an audience"]} : gmap string Value) !! k)
       ∧ claimAllowed (Fixture.configAllowing ["foo"]) k = false
       ∧ pathRolesWrite Fixture.Compile Fixture.emptyStorage
           (Ok (Fixture.configAllowing ["foo"])) CreateOperation
           (Fixture.roleRequest "tester" "tester.example.com"
              {["aud" := VString "an audience"]})
         = (Some (ErrorResponse ("claim " +:+ k +:+ " not permitted")),
            Some ErrInvalidRequest, Fixture.emptyStorage).
Proof.
  eapply (proj1 (role_write_requires_every_claim_allowed Fixture.Compile
            Fixture.emptyStorage (Fixture.configAllowing ["foo"]) CreateOperation
            (Fixture.roleRequest "tester" "tester.example.com"
               {["aud" := VString "an audience"]})
            "tester" (Fixture.testerRole {["aud" := VString "an audience"]})
            {["aud" := VString "an audience"]} _ _)).
  exists "aud". split; [by eexists | reflexivity].
  Unshelve.
  - split; [reflexivity|]. exists None. split; reflexivity.
  - reflexivity.
Defined.

(** C4 fails as stated: with an allow-list that does not hold [aud], the
    write of a role whose only claim is [aud] is rejected and nothing is
    stored. *)
Lemma role_write_rejects_unlisted_aud :
  pathRolesWrite Fixture.Compile Fixture.emptyStorage
    (Ok (Fixture.configAllowing [])) CreateOperation
    (Fixture.roleRequest "tester" "tester.example.com" {["aud" := VString "an audience"]})
  = (Some (ErrorResponse "claim aud not permitted"), Some ErrInvalidRequest,
     Fixture.emptyStorage).
Proof. reflexivity. Qed.

(** C8: a role write on which a validation check fails (a claim that is
    not on the config's allow-list, [iss] or [sub] in the claims map, an
    [aud] that breaks the config's pattern or count, an [aud] that is
    neither a string nor a list of strings) returns an error response
    with the request error, and the storage it leaves is the storage it
    was given: the put is not run. *)
Theorem role_write_validation_failure_is_atomic
    Compile stg config op d name role :
  WriteReaches Compile stg op d name role →
  ValidationFails config (Role.Claims role) →
  ∃ msg, pathRolesWrite Compile stg (Ok config) op d
         = (Some (ErrorResponse msg), Some ErrInvalidRequest, stg).
Proof.
  intros Hreach Hfails.
  rewrite (pathRolesWrite_checked _ _ _ _ _ _ _ Hreach).
  destruct (checkClaims_rejects config role Hfails) as [msg ->]. eauto.
Qed.

Lemma role_write_validation_failure_is_atomic_witness :
  ∃ msg,
    pathRolesWrite Fixture.Compile Fixture.emptyStorage
      (Ok (Fixture.configAllowing ["aud"])) CreateOperation
      (Fixture.roleRequest "tester" "tester.example.com" {["aud" := VInt 1234]})
    = (Some (ErrorResponse msg), Some ErrInvalidRequest, Fixture.emptyStorage).
Proof.
  apply (role_write_validation_failure_is_atomic Fixture.Compile Fixture.emptyStorage
           (Fixture.configAllowing ["aud"]) CreateOperation
           (Fixture.roleRequest "tester" "tester.example.com" {["aud" := VInt 1234]})
           "tester" (Fixture.testerRole {["aud" := VInt 1234]})).
  - split; [reflexivity|]. exists None. split; reflexivity.
  - do 5 right. exists (VInt 1234). split; [reflexivity|]. split; discriminate.
Defined.

(** C9: at a role write, a static [aud] in the claims map is judged by the
    config's audience pattern and the config's [MaxAudiences] alone, the
    role's own [AudiencePattern] having no say: with the other checks
    passed, the role is put when the [aud] is acceptable to the config (a
    string matching the config pattern, or a list of strings within the
    config ceiling whose elements all match it), the write is rejected
    with a request error when it is not, and an [aud] of another type is
    rejected with the message that names its type. *)
Theorem role_write_checks_static_aud_against_config
    Compile stg config op d name role (aud : Value) :
  WriteReaches Compile stg op d name role →
  (∀ k, is_Some (Role.Claims role !! k) → claimAllowed config k = true) →
  Role.Claims role !! "iss" = None →
  Role.Claims role !! "sub" = None →
  Role.Claims role !! "aud" = Some aud →
  (spec_audAcceptable config aud = true →
   pathRolesWrite Compile stg (Ok config) op d
   = (None, (setRole stg name role).1, (setRole stg name role).2))
  ∧ (spec_audAcceptable config aud = false →
     ∃ msg, pathRolesWrite Compile stg (Ok config) op d
            = (Some (ErrorResponse msg), Some ErrInvalidRequest, stg))
  ∧ ((∀ a, aud ≠ VString a) → (∀ l, aud ≠ VStringSlice l) →
     pathRolesWrite Compile stg (Ok config) op d
     = (Some (ErrorResponse ("'aud' claim was " +:+ typeName aud
                             +:+ ", not string or []string")),
        Some ErrInvalidRequest, stg)).
Proof.
  intros Hreach Hall Hiss Hsub Haud.
  rewrite (pathRolesWrite_checked _ _ _ _ _ _ _ Hreach).
  rewrite (checkClaims_aud _ _ Hall Hiss Hsub), Haud.
  split; [|split].
  - intros Hok. apply checkAud_spec in Hok. by rewrite Hok.
  - intros Hbad. destruct (checkAud config aud) as [resp|] eqn:Hc.
    + destruct (checkAud_response _ _ _ Hc) as [msg ->]. eauto.
    + apply checkAud_spec in Hc. congruence.
  - intros Hs Hl. destruct aud; simpl; try done.
    + by destruct (Hs s).
    + by destruct (Hl l).
Qed.

(** The role of the witness has a pattern of its own that its static
    [aud] does not match; the config's pattern matches, and the role is
    stored. *)
Lemma role_write_checks_static_aud_against_config_witness :
  let d := {| fd_name := Some "tester";
              fd_issuer := Some "tester.example.com";
              fd_claims := Some {["aud" := VString "an audience"]};
              fd_subject_pattern := None;
              fd_audience_pattern := Some "^internal$";
              fd_max_allowed_audiences := None;
              fd_allowed_claims := None |} in
  let role := {| Role.Issuer := "tester.example.com";
                 Role.Claims := {["aud" := VString "an audience"]};
                 Role.SubjectPattern := None;
                 Role.AudiencePattern := Some (Fixture.exactly "internal") |} in
  MatchString (Fixture.exactly "internal") "an audience" = false
  ∧ pathRolesWrite Fixture.Compile Fixture.emptyStorage
      (Ok (Fixture.configAllowing ["aud"])) CreateOperation d
    = (None, (setRole Fixture.emptyStorage "tester" role).1,
       (setRole Fixture.emptyStorage "tester" role).2).
Proof.
  intros d role. split; [reflexivity|].
  assert (∀ k, is_Some (Role.Claims role !! k) →
               claimAllowed (Fixture.configAllowing ["aud"]) k = true) as Hall.
  { intros k [v Hk]. simpl in Hk.
    apply lookup_singleton_Some in Hk as [<- _]. reflexivity. }
  apply (proj1 (role_write_checks_static_aud_against_config Fixture.Compile
                  Fixture.emptyStorage (Fixture.configAllowing ["aud"]) CreateOperation
                  d "tester" role (VString "an audience")
                  (conj eq_refl (ex_intro _ None (conj eq_refl eq_refl)))
                  Hall eq_refl eq_refl eq_refl)).
  reflexivity.
Defined.

(** ** The role read *)

(** C10: reading a name under which nothing is stored answers with no
    response and no error; the read reports an error only when the
    storage get fails or the stored entry does not decode, and then the
    error is that one. The name is the one the path carries, which is not
    empty. *)
Theorem role_read_absent_is_empty_success (stg : Storage) (name : string) :
  name ≠ "" →
  let key := path_Join keyStorageRolePath name in
  (getFault stg key = None → kv stg !! key = None →
   pathRolesRead stg name = (None, None))
  ∧ (∀ resp err, pathRolesRead stg name = (resp, Some err) →
       resp = None
       ∧ (getFault stg key = Some err
          ∨ (getFault stg key = None ∧ kv stg !! key = Some (EntryUndecodable err)))).
Proof.
  intros Hname key. unfold pathRolesRead, getRole, Storage_Get.
  destruct (decide (name = "")); [done|]. fold key.
  destruct (getFault stg key) as [e|] eqn:Hf.
  - split; [done|]. intros resp err [= <- <-]. eauto.
  - destruct (kv stg !! key) as [[r|e]|] eqn:Hkv; simpl.
    + split; [done|]. intros resp err [=].
    + split; [done|]. intros resp err [= <- <-]. eauto.
    + split; [done|]. intros resp err [=].
Qed.

Lemma role_read_absent_is_empty_success_witness :
  pathRolesRead Fixture.emptyStorage "tester" = (None, None).
Proof.
  apply (proj1 (role_read_absent_is_empty_success Fixture.emptyStorage "tester"
                  ltac:(discriminate))); reflexivity.
Defined.

(** ** The claim pipeline of the sign endpoint *)

Lemma filter_head_elem {A} (P : A → Prop) `{∀ x, Decision (P x)} (l : list A) (x : A) :
  x ∈ l → P x → ∃ y rest, filter P l = y :: rest ∧ y ∈ l ∧ P y.
Proof.
  intros Hin HP.
  assert (x ∈ filter P l) as Hx by by apply list_elem_of_filter.
  destruct (filter P l) as [|y rest] eqn:Hf; [by apply elem_of_nil in Hx|].
  assert (y ∈ filter P l) as Hy by (rewrite Hf; left).
  apply list_elem_of_filter in Hy as [HPy Hyl]. eauto.
Qed.

(** C7: a sign request whose claims hold a reserved structural key
    ([iss], [exp], [iat], [nbf], [jti]) is rejected at the first step with
    the error for a reserved claim, whatever the config and the role, and
    no claim set comes out. *)
Theorem sign_rejects_reserved_request_claim
    role roleMax config (requestClaims : gmap string Value) now jti (k : string) :
  k ∈ Sign.reservedStructural →
  is_Some (requestClaims !! k) →
  ∃ k', k' ∈ Sign.reservedStructural ∧ is_Some (requestClaims !! k') ∧
        Sign.merge role roleMax config requestClaims now jti
        = Sign.Rejected (Sign.ReservedClaim k').
Proof.
  intros Hres Hk. unfold Sign.merge.
  destruct (filter_head_elem (λ k, is_Some (requestClaims !! k))
              Sign.reservedStructural k Hres Hk) as (y & rest & -> & Hy & HPy).
  eauto.
Qed.

Lemma sign_rejects_reserved_request_claim_witness :
  ∃ k', k' ∈ Sign.reservedStructural
        ∧ is_Some (({["exp" := VInt 1234]} : gmap string Value) !! k')
        ∧ Sign.merge (Fixture.testerRole ∅) None (Fixture.configAllowing ["exp"])
            {["exp" := VInt 1234]} 0 "1"
          = Sign.Rejected (Sign.ReservedClaim k').
Proof.
  apply (sign_rejects_reserved_request_claim (Fixture.testerRole ∅) None
           (Fixture.configAllowing ["exp"]) {["exp" := VInt 1234]} 0 "1" "exp").
  - unfold Sign.reservedStructural. apply list_elem_of_In. simpl. tauto.
  - exists (VInt 1234). reflexivity.
Defined.

(** C6: a sign request whose claims hold a key that the role's static
    claims hold as well is rejected and no claim set comes out; unless a
    reserved key stops the request first, the error is the one for the
    override of a role claim and names a key that both maps hold. A role
    claim [aud] is no exception. *)
Theorem sign_rejects_override_of_role_claim
    role roleMax config (requestClaims : gmap string Value) now jti (k : string) :
  is_Some (requestClaims !! k) →
  is_Some (Role.Claims role !! k) →
  ∃ e, Sign.merge role roleMax config requestClaims now jti = Sign.Rejected e
       ∧ ((∃ c, e = Sign.ReservedClaim c)
          ∨ (∃ c, e = Sign.RoleClaimOverride c
                  ∧ is_Some (requestClaims !! c)
                  ∧ is_Some (Role.Claims role !! c))).
Proof.
  intros Hreq Hrole. unfold Sign.merge.
  destruct (filter _ Sign.reservedStructural) as [|c ?]; [|by eauto].
  destruct (filter_head_elem (λ k, is_Some (Role.Claims role !! k))
              (rangeKeys requestClaims) k) as (y & rest & -> & Hy & HPy); [|done|].
  { by apply elem_of_rangeKeys. }
  eexists. split; [done|]. right. exists y. split; [done|].
  split; [by apply elem_of_rangeKeys|done].
Qed.

Lemma sign_rejects_override_of_role_claim_witness :
  ∃ e, Sign.merge (Fixture.testerRole {["aud" := VString "fixed-audience"]}) None
         (Fixture.configAllowing ["aud"]) {["aud" := VString "other"]} 0 "1"
       = Sign.Rejected e
       ∧ ((∃ c, e = Sign.ReservedClaim c)
          ∨ (∃ c, e = Sign.RoleClaimOverride c
                  ∧ is_Some (({["aud" := VString "other"]} : gmap string Value) !! c)
                  ∧ is_Some (Role.Claims
                               (Fixture.testerRole {["aud" := VString "fixed-audience"]})
                             !! c))).
Proof.
  apply (sign_rejects_override_of_role_claim
           (Fixture.testerRole {["aud" := VString "fixed-audience"]}) None
           (Fixture.configAllowing ["aud"]) {["aud" := VString "other"]} 0 "1" "aud").
  - exists (VString "other"). reflexivity.
  - exists (VString "fixed-audience"). reflexivity.
Defined.

(** The scenario of the document, and the test
    [TestRejectOverwriteRoleOtherClaim] of the package, to the letter. *)
Example sign_fixed_audience_scenario :
  Sign.merge (Fixture.testerRole {["aud" := VString "fixed-audience"]}) None
    (Fixture.configAllowing ["aud"]) {["aud" := VString "other"]} 0 "1"
  = Sign.Rejected (Sign.RoleClaimOverride "aud")
  ∧ Sign.merge (Fixture.testerRole {["aud" := VString "an audience"]}) None
      (Fixture.configAllowing ["aud"]) {["aud" := VInt 1234]} 0 "1"
    = Sign.Rejected (Sign.RoleClaimOverride "aud").
Proof. split; reflexivity. Qed.






(** C5: the role with issuer [tester.example.com] and no static claims,
    a config with an empty allow-list, and the request claims
    [aud = ["A"; "B"]]: with a config pattern that matches both audiences
    and a ceiling that admits two, the merge succeeds, and in the claim
    set [iss] is the role's issuer, [aud] is the requested list, there is
    no [sub], and [exp] is [iat] plus the config's token lifetime. *)
Theorem sign_scenario_audience_list (config : Config.t) (now : Z) (jti : string) :
  Config.allowedClaimsMap config = ∅ →
  MatchString (Config.AudiencePattern config) "A" = true →
  MatchString (Config.AudiencePattern config) "B" = true →
  Config.MaxAudiences config = -1 ∨ 2 ≤ Config.MaxAudiences config →
  ∃ final,
    Sign.merge (Fixture.testerRole ∅) None config
      {["aud" := VStringSlice ["A"; "B"]]} now jti = Sign.Merged final
    ∧ final !! "iss" = Some (VString "tester.example.com")
    ∧ final !! "aud" = Some (VStringSlice ["A"; "B"])
    ∧ final !! "sub" = None
    ∧ final !! "iat" = Some (VInt now)
    ∧ final !! "exp" = Some (VInt (now + Config.TokenTTL config)).
Proof.
  intros Hallow HA HB Hmax.
  exists (Sign.compose (Fixture.testerRole ∅) config
            {["aud" := VStringSlice ["A"; "B"]]} now jti).
  split.
  - unfold Sign.merge.
    replace (filter _ Sign.reservedStructural) with (@nil string) by reflexivity.
    replace (rangeKeys {["aud" := VStringSlice ["A"; "B"]]}) with ["aud"] by reflexivity.
    replace (filter (λ k, is_Some (Role.Claims (Fixture.testerRole ∅) !! k)) ["aud"])
      with (@nil string) by reflexivity.
    rewrite filter_cons, decide_False by (intros [? _]; done).
    rewrite filter_nil.
    replace (Sign.checkSub _ _) with (@None Sign.MergeError) by reflexivity.
    unfold Sign.checkAud, Sign.effectiveAudiencePattern, Sign.effectiveMaxAudiences.
    rewrite lookup_singleton_eq. simpl.
    rewrite HA, HB. simpl.
    destruct Hmax as [->|Hmax]; [done|].
    destruct (Z.gtb_spec (Z.of_nat 2) (Config.MaxAudiences config)); [lia|].
    by rewrite andb_false_r.
  - unfold Sign.compose. simpl.
    repeat split; by simplify_map_eq.
Qed.

Lemma sign_scenario_audience_list_witness :
  ∃ final,
    Sign.merge (Fixture.testerRole ∅) None (Fixture.configAllowing [])
      {["aud" := VStringSlice ["A"; "B"]]} 0 "1" = Sign.Merged final
    ∧ final !! "iss" = Some (VString "tester.example.com")
    ∧ final !! "aud" = Some (VStringSlice ["A"; "B"])
    ∧ final !! "sub" = None
    ∧ final !! "iat" = Some (VInt 0)
    ∧ final !! "exp" = Some (VInt (0 + Config.TokenTTL (Fixture.configAllowing []))).
Proof.
  apply (sign_scenario_audience_list (Fixture.configAllowing []) 0 "1").
  - reflexivity.
  - reflexivity.
  - reflexivity.
  - left. reflexivity.
Defined.

(** The tests of the package on the pipeline: [TestSign] (the clock at 0,
    the identifier "1", three minutes of lifetime), [TestPrivateClaim]
    and [TestRejectReservedClaims]. *)
Example sign_TestSign :
  Sign.merge (Fixture.testerRole ∅) None (Fixture.configAllowing ["aud"])
    {["aud" := VStringSlice ["Zapp Brannigan"; "Kif Kroker"]]} 0 "1"
  = Sign.Merged
      (list_to_map
         [("aud", VStringSlice ["Zapp Brannigan"; "Kif Kroker"]);
          ("exp", VInt (3 * 60)); ("iat", VInt 0); ("nbf", VInt 0);
          ("jti", VString "1"); ("iss", VString "tester.example.com")]).
Proof. vm_compute. reflexivity. Qed.

Example sign_TestPrivateClaim :
  ∃ final,
    Sign.merge (Fixture.testerRole {["aud" := VString "an audience"]}) None
      (Fixture.configAllowing ["aud"; "foo"]) {["foo" := VString "bar"]} 0 "1"
    = Sign.Merged final
    ∧ final !! "foo" = Some (VString "bar")
    ∧ final !! "aud" = Some (VString "an audience").
Proof. eexists. split; [reflexivity|]. split; reflexivity. Qed.

Example sign_TestRejectReservedClaims :
  Sign.merge (Fixture.testerRole ∅) None (Fixture.configAllowing ["aud"])
    {["exp" := VInt 1234]} 0 "1"
  = Sign.Rejected (Sign.ReservedClaim "exp").
Proof. reflexivity. Qed.

(** * Further properties of the role endpoints *)

(** ** Paths and keys *)

Lemma path_Join_role (name : string) :
  name ≠ "" → path_Join keyStorageRolePath name = "role/" +:+ name.
Proof. intros Hn. unfold path_Join. by destruct (decide (name = "")). Qed.

Lemma path_Join_role_inj (name name' : string) :
  name ≠ "" → name' ≠ "" →
  path_Join keyStorageRolePath name = path_Join keyStorageRolePath name' →
  name = name'.
Proof.
  intros Hn Hn'. rewrite !path_Join_role by done.
  intros H. by simplify_eq.
Qed.

Lemma trimPrefix_app (prefix rest : string) :
  trimPrefix prefix (prefix +:+ rest) = Some rest.
Proof.
  induction prefix as [|c prefix IH]; simpl; [done|].
  by destruct (decide (c = c)).
Qed.

Lemma trimPrefix_Some (prefix s rest : string) :
  trimPrefix prefix s = Some rest → s = prefix +:+ rest.
Proof.
  revert s. induction prefix as [|c prefix IH]; intros s; simpl.
  - by intros [= ->].
  - destruct s as [|c' s]; [done|].
    destruct (decide (c = c')) as [->|]; [|done].
    intros H. by rewrite (IH _ H).
Qed.

Lemma hasSlash_firstElement (s : string) :
  hasSlash (firstElement s) = hasSlash s.
Proof.
  induction s as [|c s IH]; simpl; [done|].
  destruct (decide (c = "/"%char)) as [->|Hc]; simpl.
  - done.
  - by destruct (decide (c = "/"%char)).
Qed.

Lemma firstElement_no_slash (s : string) :
  hasSlash s = false → firstElement s = s.
Proof.
  induction s as [|c s IH]; simpl; [done|].
  destruct (decide (c = "/"%char)); [done|].
  intros H. by rewrite IH.
Qed.

Lemma elem_of_map_keys {A} (m : gmap string A) (k : string) :
  k ∈ (map_to_list m).*1 ↔ is_Some (m !! k).
Proof.
  rewrite list_elem_of_fmap. split.
  - intros [[k' v] [-> Hin]]. apply elem_of_map_to_list in Hin. by exists v.
  - intros [v Hv]. exists (k, v). split; [done|]. by apply elem_of_map_to_list.
Qed.

(** A name without a slash is listed under a prefix exactly when the key
    made of the prefix and the name is in the store. *)
Lemma elem_of_Storage_List (stg : Storage) (prefix name : string) (entries : list string) :
  Storage_List None stg prefix = Ok entries →
  hasSlash name = false →
  name ∈ entries ↔ is_Some (kv stg !! (prefix +:+ name)).
Proof.
  intros [= <-] Hslash.
  rewrite elem_of_remove_dups, list_elem_of_omap. split.
  - intros (key & Hkey & Hf). apply elem_of_map_keys in Hkey.
    destruct (trimPrefix prefix key) as [rest|] eqn:Htrim; [|done].
    simpl in Hf. injection Hf as Hf.
    assert (hasSlash rest = false) as Hrest.
    { by rewrite <- hasSlash_firstElement, Hf. }
    rewrite (firstElement_no_slash _ Hrest) in Hf. subst rest.
    by rewrite <- (trimPrefix_Some _ _ _ Htrim).
  - intros Hkey. exists (prefix +:+ name). split; [by apply elem_of_map_keys|].
    by rewrite trimPrefix_app; simpl; rewrite firstElement_no_slash.
Qed.

(** ** The write, step by step *)

Section RoleWriteMore.

Context (Compile : string -> result Regexp).

Lemma updateRole_fields op d old role :
  updateRole Compile op d old = Ok role → FieldsApplied Compile d old role.
Proof.
  unfold updateRole, FieldsApplied. intros H.
  destruct (fd_issuer d) as [i|], op, (fd_claims d) as [c|],
    (fd_audience_pattern d) as [ap|], (fd_subject_pattern d) as [sp|];
    simpl in H; try discriminate;
    repeat match type of H with
           | context [Compile ?s] =>
               let E := fresh "E" in destruct (Compile s) eqn:E; simpl in H
           end;
    try discriminate; injection H as <-; simpl; eauto 10.
Qed.

(** A write that ends in plain success went through every step. *)
Lemma pathRolesWrite_success stg getConfig op d stg' :
  pathRolesWrite Compile stg getConfig op d = (None, None, stg') →
  ∃ name stored config role,
    fd_name d = Some name
    ∧ getRole stg name = Ok stored
    ∧ getConfig = Ok config
    ∧ updateRole Compile op d (default Role.zero stored) = Ok role
    ∧ checkClaims config role = None
    ∧ putFault stg (path_Join keyStorageRolePath name) = None
    ∧ stg' = {| kv := <[path_Join keyStorageRolePath name := EntryRole role]> (kv stg);
                getFault := getFault stg;
                putFault := putFault stg |}.
Proof.
  unfold pathRolesWrite, setRole, Storage_Put.
  destruct (fd_name d) as [name|]; [|done].
  destruct (getRole stg name) as [stored|e] eqn:Hget; [|done].
  destruct getConfig as [config|e]; [|done].
  replace (match stored with Some role0 => role0 | None => Role.zero end)
    with (default Role.zero stored) by by destruct stored.
  destruct (updateRole _ _ _ _) as [role|e] eqn:Hupd; [|done].
  destruct (checkClaims config role) eqn:Hc; [done|].
  destruct (putFault stg _) eqn:Hput; [done|].
  intros [= <-]. by exists name, stored, config, role.
Qed.

Lemma getRole_Ok_inv stg name stored :
  getRole stg name = Ok stored →
  name ≠ "" ∧ getFault stg (path_Join keyStorageRolePath name) = None.
Proof.
  unfold getRole, Storage_Get.
  destruct (decide (name = "")); [done|].
  by destruct (getFault stg _).
Qed.

End RoleWriteMore.

(** ** Write, read and existence check together *)

(** X1: after a write that ends in plain success, the read of the same
    name succeeds with a data response and the existence check answers
    yes. The role that was put is the one that the request's fields make
    of the role stored before (of the empty role when there was none),
    and the response agrees with it on what the encoding of the entry
    leaves alone: the issuer, the keys of the claims, and the claims that
    are strings. Claims of other types are not compared: the entry is
    JSON, from which a list of strings comes back as a list of interfaces
    and an int as a number. *)
Theorem role_write_then_read Compile stg getConfig op d stg' :
  pathRolesWrite Compile stg getConfig op d = (None, None, stg') →
  ∃ name stored role data,
    fd_name d = Some name
    ∧ getRole stg name = Ok stored
    ∧ FieldsApplied Compile d (default Role.zero stored) role
    ∧ pathRolesRead stg' name = (Some (DataResponse data), None)
    ∧ dataIssuer data = Role.Issuer role
    ∧ dom (dataClaims data) = dom (Role.Claims role)
    ∧ (∀ k text, Role.Claims role !! k = Some (VString text) →
                 dataClaims data !! k = Some (VString text))
    ∧ pathRoleExistenceCheck stg' name = (true, None).
Proof.
  intros H.
  destruct (pathRolesWrite_success _ _ _ _ _ _ H)
    as (name & stored & config & role & Hn & Hget & _ & Hupd & _ & _ & ->).
  exists name, stored, role, (toResponseData role).
  split; [done|]. split; [done|].
  split; [by apply updateRole_fields in Hupd|].
  destruct (getRole_Ok_inv _ _ _ Hget) as [Hne Hfault].
  unfold pathRolesRead, pathRoleExistenceCheck, getRole, Storage_Get. simpl.
  destruct (decide (name = "")); [done|].
  by rewrite Hfault, lookup_insert_eq.
Qed.

Lemma role_write_then_read_witness :
  let d := Fixture.roleRequest "tester" "tester.example.com"
             {["aud" := VString "an audience"]} in
  let stg' := (pathRolesWrite Fixture.Compile Fixture.emptyStorage
                 (Ok (Fixture.configAllowing ["aud"])) CreateOperation d).2 in
  ∃ name stored role data,
    fd_name d = Some name
    ∧ getRole Fixture.emptyStorage name = Ok stored
    ∧ FieldsApplied Fixture.Compile d (default Role.zero stored) role
    ∧ pathRolesRead stg' name = (Some (DataResponse data), None)
    ∧ dataIssuer data = Role.Issuer role
    ∧ dom (dataClaims data) = dom (Role.Claims role)
    ∧ (∀ k text, Role.Claims role !! k = Some (VString text) →
                 dataClaims data !! k = Some (VString text))
    ∧ pathRoleExistenceCheck stg' name = (true, None).
Proof.
  intros d stg'.
  apply (role_write_then_read Fixture.Compile Fixture.emptyStorage
           (Ok (Fixture.configAllowing ["aud"])) CreateOperation d).
  reflexivity.
Defined.

(** X2: a write, whatever its outcome, changes nothing about the role
    under any other name: the read of the other name answers as before. *)
Theorem role_write_leaves_other_roles
    Compile stg getConfig op d resp err stg' (name other : string) :
  pathRolesWrite Compile stg getConfig op d = (resp, err, stg') →
  fd_name d = Some name →
  other ≠ name →
  other ≠ "" →
  pathRolesRead stg' other = pathRolesRead stg other.
Proof.
  intros H Hname Hother Hne.
  destruct resp as [r|], err as [e|];
    try (rewrite (pathRolesWrite_failure_keeps_storage _ _ _ _ _ _ _ _ H); [done|];
         (by left) || (by right)).
  destruct (pathRolesWrite_success _ _ _ _ _ _ H)
    as (name' & stored & config & role & Hn & Hget & _ & _ & _ & _ & ->).
  assert (name' = name) as -> by congruence.
  destruct (getRole_Ok_inv _ _ _ Hget) as [Hnne _].
  unfold pathRolesRead, getRole, Storage_Get. simpl.
  rewrite lookup_insert_ne; [done|].
  intros Heq. apply Hother. symmetry. by apply path_Join_role_inj.
Qed.

Lemma role_write_leaves_other_roles_witness :
  let stg := storageHolding "role/other" (EntryRole (Fixture.testerRole ∅)) in
  pathRolesRead
    (pathRolesWrite Fixture.Compile stg (Ok (Fixture.configAllowing []))
       CreateOperation (Fixture.roleRequest "tester" "tester.example.com" ∅)).2 "other"
  = pathRolesRead stg "other".
Proof.
  intros stg.
  apply (role_write_leaves_other_roles Fixture.Compile stg
           (Ok (Fixture.configAllowing [])) CreateOperation
           (Fixture.roleRequest "tester" "tester.example.com" ∅)
           None None _ "tester" "other").
  - reflexivity.
  - reflexivity.
  - discriminate.
  - discriminate.
Defined.

(** ** What a write stores, and what stops it *)

Lemma checkClaims_None_inv config role :
  checkClaims config role = None →
  (∀ k, is_Some (Role.Claims role !! k) → claimAllowed config k = true)
  ∧ Role.Claims role !! "iss" = None
  ∧ Role.Claims role !! "sub" = None
  ∧ (∀ aud, Role.Claims role !! "aud" = Some aud → spec_audAcceptable config aud = true).
Proof.
  intros Hc.
  pose proof (checkClaims_None_allowed _ _ Hc) as Hall.
  assert (Role.Claims role !! "iss" = None) as Hiss.
  { unfold checkClaims in Hc. repeat case_match; congruence. }
  assert (Role.Claims role !! "sub" = None) as Hsub.
  { unfold checkClaims in Hc. repeat case_match; congruence. }
  repeat split; try done.
  intros aud Haud. rewrite (checkClaims_aud _ _ Hall Hiss Hsub), Haud in Hc.
  by apply checkAud_spec.
Qed.

(** X3: the role that a successful write leaves in the store passed the
    checks against the config of that write: every key of its claims is
    on the allow-list, [iss] and [sub] are not among them, and a static
    [aud] is acceptable to the config's pattern and ceiling. *)
Theorem role_write_stores_only_checked_roles Compile stg config op d stg' :
  pathRolesWrite Compile stg (Ok config) op d = (None, None, stg') →
  ∃ name role,
    fd_name d = Some name
    ∧ kv stg' !! path_Join keyStorageRolePath name = Some (EntryRole role)
    ∧ (∀ k, is_Some (Role.Claims role !! k) → claimAllowed config k = true)
    ∧ Role.Claims role !! "iss" = None
    ∧ Role.Claims role !! "sub" = None
    ∧ (∀ aud, Role.Claims role !! "aud" = Some aud →
              spec_audAcceptable config aud = true).
Proof.
  intros H.
  destruct (pathRolesWrite_success _ _ _ _ _ _ H)
    as (name & stored & config' & role & Hn & _ & [= <-] & _ & Hc & _ & ->).
  exists name, role. split; [done|]. split; [by simpl; rewrite lookup_insert_eq|].
  by apply checkClaims_None_inv.
Qed.

Lemma role_write_stores_only_checked_roles_witness :
  ∃ name role,
    fd_name (Fixture.roleRequest "tester" "tester.example.com"
               {["aud" := VString "an audience"]}) = Some name
    ∧ kv (pathRolesWrite Fixture.Compile Fixture.emptyStorage
            (Ok (Fixture.configAllowing ["aud"])) CreateOperation
            (Fixture.roleRequest "tester" "tester.example.com"
               {["aud" := VString "an audience"]})).2
      !! path_Join keyStorageRolePath name = Some (EntryRole role)
    ∧ (∀ k, is_Some (Role.Claims role !! k) →
            claimAllowed (Fixture.configAllowing ["aud"]) k = true)
    ∧ Role.Claims role !! "iss" = None
    ∧ Role.Claims role !! "sub" = None
    ∧ (∀ aud, Role.Claims role !! "aud" = Some aud →
              spec_audAcceptable (Fixture.configAllowing ["aud"]) aud = true).
Proof.
  apply (role_write_stores_only_checked_roles Fixture.Compile Fixture.emptyStorage
           (Fixture.configAllowing ["aud"]) CreateOperation
           (Fixture.roleRequest "tester" "tester.example.com"
              {["aud" := VString "an audience"]})).
  reflexivity.
Defined.

(** X4: a write that does not carry the field [claims] keeps the claims
    of the stored role and checks them again, against the config of now:
    when they no longer pass, the write is rejected with a request error
    and the store is left as it was, whatever else the request changes. *)
Theorem role_update_checks_stored_claims_again
    Compile stg config op d name (stored role : Role.t) :
  fd_name d = Some name →
  getRole stg name = Ok (Some stored) →
  fd_claims d = None →
  updateRole Compile op d stored = Ok role →
  ValidationFails config (Role.Claims stored) →
  ∃ msg, pathRolesWrite Compile stg (Ok config) op d
         = (Some (ErrorResponse msg), Some ErrInvalidRequest, stg).
Proof.
  intros Hname Hget Hclaims Hupd Hfails.
  rewrite (pathRolesWrite_checked Compile stg config op d name role).
  - destruct (updateRole_fields _ _ _ _ _ Hupd) as (_ & Hc & _).
    rewrite Hclaims in Hc. simpl in Hc. rewrite <- Hc in Hfails.
    destruct (checkClaims_rejects config role Hfails) as [msg ->]. eauto.
  - split; [done|]. by exists (Some stored).
Qed.

Lemma role_update_checks_stored_claims_again_witness :
  let stored := Fixture.testerRole {["foo" := VString "bar"]} in
  let stg := storageHolding "role/tester" (EntryRole stored) in
  let d := {| fd_name := Some "tester";
              fd_issuer := Some "other.example.com";
              fd_claims := None;
              fd_subject_pattern := None;
              fd_audience_pattern := None;
              fd_max_allowed_audiences := None;
              fd_allowed_claims := None |} in
  ∃ msg, pathRolesWrite Fixture.Compile stg (Ok (Fixture.configAllowing ["aud"]))
           UpdateOperation d
         = (Some (ErrorResponse msg), Some ErrInvalidRequest, stg).
Proof.
  intros stored stg d.
  apply (role_update_checks_stored_claims_again Fixture.Compile stg
           (Fixture.configAllowing ["aud"]) UpdateOperation d "tester" stored
           {| Role.Issuer := "other.example.com";
              Role.Claims := {["foo" := VString "bar"]};
              Role.SubjectPattern := None;
              Role.AudiencePattern := None |}).
  - reflexivity.
  - reflexivity.
  - reflexivity.
  - reflexivity.
  - left. exists "foo". split; [by eexists | reflexivity].
Defined.

(** X5: an entry that does not decode stands in the way of every write to
    its name: the read fails with the decoder's error, the existence
    check still answers yes, and a write to the name, whatever it
    carries, returns the decoder's error and leaves the store alone. *)
Theorem role_undecodable_entry_blocks_write (stg : Storage) (name : string) (e : error) :
  name ≠ "" →
  getFault stg (path_Join keyStorageRolePath name) = None →
  kv stg !! path_Join keyStorageRolePath name = Some (EntryUndecodable e) →
  pathRolesRead stg name = (None, Some e)
  ∧ pathRoleExistenceCheck stg name = (true, None)
  ∧ ∀ Compile getConfig op d,
      fd_name d = Some name →
      pathRolesWrite Compile stg getConfig op d = (None, Some e, stg).
Proof.
  intros Hne Hfault Hkv.
  assert (getRole stg name = Err e) as Hget.
  { unfold getRole, Storage_Get. destruct (decide (name = "")); [done|].
    by rewrite Hfault, Hkv. }
  split; [by unfold pathRolesRead; rewrite Hget|].
  split; [by unfold pathRoleExistenceCheck, Storage_Get; rewrite Hfault, Hkv|].
  intros Compile getConfig op d Hname.
  unfold pathRolesWrite. by rewrite Hname, Hget.
Qed.

Lemma role_undecodable_entry_blocks_write_witness :
  let e := Errorf "unexpected end of JSON input" in
  let stg := storageHolding "role/tester" (EntryUndecodable e) in
  pathRolesRead stg "tester" = (None, Some e)
  ∧ pathRoleExistenceCheck stg "tester" = (true, None)
  ∧ ∀ Compile getConfig op d,
      fd_name d = Some "tester" →
      pathRolesWrite Compile stg getConfig op d = (None, Some e, stg).
Proof.
  intros e stg.
  apply (role_undecodable_entry_blocks_write stg "tester" e).
  - discriminate.
  - reflexivity.
  - reflexivity.
Defined.

(** X6: a create that carries no issuer fails with the error "missing
    issuer in role", which is not the request error, before the claims
    are looked at: whatever the claims and the patterns of the request
    are, that is the outcome, and nothing is stored. *)
Theorem role_create_needs_issuer Compile stg config d name stored :
  fd_name d = Some name →
  getRole stg name = Ok stored →
  fd_issuer d = None →
  pathRolesWrite Compile stg (Ok config) CreateOperation d
  = (None, Some (Errorf "missing issuer in role"), stg).
Proof.
  intros Hname Hget Hiss. unfold pathRolesWrite, updateRole.
  by rewrite Hname, Hget, Hiss.
Qed.

Lemma role_create_needs_issuer_witness :
  pathRolesWrite Fixture.Compile Fixture.emptyStorage
    (Ok (Fixture.configAllowing [])) CreateOperation
    {| fd_name := Some "tester";
       fd_issuer := None;
       fd_claims := Some {["iss" := VString "x"]};
       fd_subject_pattern := Some "(";
       fd_audience_pattern := None;
       fd_max_allowed_audiences := None;
       fd_allowed_claims := None |}
  = (None, Some (Errorf "missing issuer in role"), Fixture.emptyStorage).
Proof.
  apply (role_create_needs_issuer Fixture.Compile Fixture.emptyStorage
           (Fixture.configAllowing []) _ "tester" None).
  - reflexivity.
  - reflexivity.
  - reflexivity.
Defined.

(** X7: the issuer is asked for by the operation of the request, not by
    what the store holds: an update that carries only a name under which
    nothing is stored goes through, under any config, and stores the
    empty role, with the empty issuer. *)
Theorem role_update_of_absent_role_stores_empty_role
    Compile (stg : Storage) config (name : string) :
  name ≠ "" →
  getFault stg (path_Join keyStorageRolePath name) = None →
  putFault stg (path_Join keyStorageRolePath name) = None →
  kv stg !! path_Join keyStorageRolePath name = None →
  ∃ stg',
    pathRolesWrite Compile stg (Ok config) UpdateOperation (nameOnly name)
    = (None, None, stg')
    ∧ kv stg' !! path_Join keyStorageRolePath name = Some (EntryRole Role.zero)
    ∧ pathRolesRead stg' name
      = (Some (DataResponse (toResponseData Role.zero)), None).
Proof.
  intros Hne Hget Hput Hkv.
  unfold pathRolesWrite, getRole, Storage_Get, setRole, Storage_Put,
    pathRolesRead, getRole, Storage_Get. simpl.
  destruct (decide (name = "")); [done|].
  rewrite Hget, Hkv, Hput. simpl.
  eexists. split; [reflexivity|]. simpl.
  by rewrite Hget, lookup_insert_eq.
Qed.

Lemma role_update_of_absent_role_stores_empty_role_witness :
  ∃ stg',
    pathRolesWrite Fixture.Compile Fixture.emptyStorage
      (Ok (Fixture.configAllowing [])) UpdateOperation (nameOnly "tester")
    = (None, None, stg')
    ∧ kv stg' !! path_Join keyStorageRolePath "tester" = Some (EntryRole Role.zero)
    ∧ pathRolesRead stg' "tester"
      = (Some (DataResponse (toResponseData Role.zero)), None).
Proof.
  apply (role_update_of_absent_role_stores_empty_role Fixture.Compile
           Fixture.emptyStorage (Fixture.configAllowing []) "tester").
  - discriminate.
  - reflexivity.
  - reflexivity.
  - reflexivity.
Defined.

(** X8: a pattern that does not compile ends the write with the
    compiler's error, not the request error, before any claim is checked,
    and nothing is stored. The audience pattern is compiled first: when it
    fails, its error is the one returned; the subject pattern's error is
    returned when the audience pattern is absent or compiles. *)
Theorem role_write_pattern_must_compile
    Compile stg config op d name stored (issuer : string) :
  fd_name d = Some name →
  getRole stg name = Ok stored →
  fd_issuer d = Some issuer →
  (∀ text e, fd_audience_pattern d = Some text → Compile text = Err e →
             pathRolesWrite Compile stg (Ok config) op d = (None, Some e, stg))
  ∧ (∀ text e, fd_subject_pattern d = Some text → Compile text = Err e →
               (∀ audience, fd_audience_pattern d = Some audience →
                            ∃ p, Compile audience = Ok p) →
               pathRolesWrite Compile stg (Ok config) op d = (None, Some e, stg)).
Proof.
  intros Hname Hget Hiss. unfold pathRolesWrite, updateRole.
  rewrite Hname, Hget, Hiss. split.
  - intros text e -> Hc. by rewrite Hc.
  - intros text e -> Hc Haud.
    destruct (fd_audience_pattern d) as [audience|].
    + destruct (Haud audience eq_refl) as [p ->]. by rewrite Hc.
    + by rewrite Hc.
Qed.

Lemma role_write_pattern_must_compile_witness :
  let d := {| fd_name := Some "tester";
              fd_issuer := Some "tester.example.com";
              fd_claims := Some {["iss" := VString "x"]};
              fd_subject_pattern := Some ".*";
              fd_audience_pattern := Some "(";
              fd_max_allowed_audiences := None;
              fd_allowed_claims := None |} in
  pathRolesWrite Fixture.Compile Fixture.emptyStorage
    (Ok (Fixture.configAllowing [])) CreateOperation d
  = (None, Some (Errorf "error parsing regexp: missing closing )"),
     Fixture.emptyStorage).
Proof.
  intros d.
  apply (proj1 (role_write_pattern_must_compile Fixture.Compile Fixture.emptyStorage
                  (Fixture.configAllowing []) CreateOperation d "tester" None
                  "tester.example.com" eq_refl eq_refl eq_refl) "(").
  - reflexivity.
  - reflexivity.
Defined.

(** ** Delete, existence check and list *)

(** X9: a delete that the store carries out makes no question of what is
    under the name (a role, an entry that does not decode, or nothing):
    it succeeds, and afterwards the read answers with the empty success
    and the existence check with no. *)
Theorem role_delete_then_absent (stg : Storage) (name : string) :
  name ≠ "" →
  getFault stg (path_Join keyStorageRolePath name) = None →
  ∃ stg',
    pathRolesDelete None stg name = (None, None, stg')
    ∧ pathRolesRead stg' name = (None, None)
    ∧ pathRoleExistenceCheck stg' name = (false, None).
Proof.
  intros Hne Hget. eexists. split; [reflexivity|].
  unfold pathRolesRead, pathRoleExistenceCheck, getRole, Storage_Get. simpl.
  destruct (decide (name = "")); [done|].
  by rewrite Hget, lookup_delete_eq.
Qed.

Lemma role_delete_then_absent_witness :
  ∃ stg',
    pathRolesDelete None
      (storageHolding "role/tester" (EntryRole (Fixture.testerRole ∅))) "tester"
    = (None, None, stg')
    ∧ pathRolesRead stg' "tester" = (None, None)
    ∧ pathRoleExistenceCheck stg' "tester" = (false, None).
Proof.
  apply (role_delete_then_absent
           (storageHolding "role/tester" (EntryRole (Fixture.testerRole ∅))) "tester").
  - discriminate.
  - reflexivity.
Defined.

(** X10: a delete, carried out or not, changes nothing about the role
    under any other name. *)
Theorem role_delete_leaves_other_roles
    (fault : option error) (stg : Storage) (name other : string) :
  name ≠ "" →
  other ≠ "" →
  other ≠ name →
  pathRolesRead (pathRolesDelete fault stg name).2 other = pathRolesRead stg other.
Proof.
  intros Hne Hone Hother. unfold pathRolesDelete, Storage_Delete.
  destruct fault as [e|]; simpl; [done|].
  unfold pathRolesRead, getRole, Storage_Get. simpl.
  rewrite lookup_delete_ne; [done|].
  intros Heq. apply Hother. symmetry. by apply path_Join_role_inj.
Qed.

Lemma role_delete_leaves_other_roles_witness :
  let stg := storageHolding "role/other" (EntryRole (Fixture.testerRole ∅)) in
  pathRolesRead (pathRolesDelete None stg "tester").2 "other"
  = pathRolesRead stg "other".
Proof.
  intros stg.
  apply (role_delete_leaves_other_roles None stg "tester" "other"); discriminate.
Defined.

(** X12: the existence check and the read agree on absence: for a name
    that is not empty, the check answers no without error exactly when
    the read answers with the empty success. *)
Theorem role_existence_check_agrees_with_read (stg : Storage) (name : string) :
  name ≠ "" →
  pathRoleExistenceCheck stg name = (false, None)
  ↔ pathRolesRead stg name = (None, None).
Proof.
  intros Hne. unfold pathRoleExistenceCheck, pathRolesRead, getRole, Storage_Get.
  destruct (decide (name = "")); [done|].
  destruct (getFault stg _); [done|].
  destruct (kv stg !! _) as [[r|e]|]; simpl; split; intros H; try done.
Qed.

Lemma role_existence_check_agrees_with_read_witness :
  pathRoleExistenceCheck Fixture.emptyStorage "tester" = (false, None)
  ↔ pathRolesRead Fixture.emptyStorage "tester" = (None, None).
Proof.
  apply (role_existence_check_agrees_with_read Fixture.emptyStorage "tester").
  discriminate.
Defined.

(** X13: the list and the existence check agree: with no fault in the
    store, a name that is not empty and has no slash is among the listed
    keys exactly when the existence check answers yes. *)
Theorem role_list_agrees_with_existence_check (stg : Storage) (name : string) :
  name ≠ "" →
  hasSlash name = false →
  getFault stg (path_Join keyStorageRolePath name) = None →
  ∃ entries,
    pathRolesList None stg = (Some entries, None)
    ∧ (name ∈ entries ↔ pathRoleExistenceCheck stg name = (true, None)).
Proof.
  intros Hne Hslash Hget. eexists. split; [reflexivity|].
  rewrite (elem_of_Storage_List stg _ name _ eq_refl Hslash).
  unfold pathRoleExistenceCheck, Storage_Get. rewrite Hget.
  rewrite path_Join_role by done.
  replace (keyStorageRolePath +:+ "/" +:+ name) with ("role/" +:+ name) by reflexivity.
  destruct (kv stg !! _) as [entry|]; split; intros H; try done.
Qed.

Lemma role_list_agrees_with_existence_check_witness :
  let stg := storageHolding "role/tester" (EntryRole (Fixture.testerRole ∅)) in
  ∃ entries,
    pathRolesList None stg = (Some entries, None)
    ∧ ("tester" ∈ entries ↔ pathRoleExistenceCheck stg "tester" = (true, None)).
Proof.
  intros stg.
  apply (role_list_agrees_with_existence_check stg "tester").
  - discriminate.
  - reflexivity.
  - reflexivity.
Defined.

(** X14: after a write that ends in plain success, the name of the role,
    when it has no slash, is among the keys that the list returns. *)
Theorem role_write_then_listed Compile stg getConfig op d stg' (name : string) :
  pathRolesWrite Compile stg getConfig op d = (None, None, stg') →
  fd_name d = Some name →
  hasSlash name = false →
  ∃ entries,
    pathRolesList None stg' = (Some entries, None) ∧ name ∈ entries.
Proof.
  intros H Hname Hslash.
  destruct (pathRolesWrite_success _ _ _ _ _ _ H)
    as (name' & stored & config & role & Hn & Hget & _ & _ & _ & _ & ->).
  assert (name' = name) as -> by congruence.
  destruct (getRole_Ok_inv _ _ _ Hget) as [Hne _].
  eexists. split; [reflexivity|].
  apply (elem_of_Storage_List _ (keyStorageRolePath +:+ "/") name _ eq_refl Hslash).
  simpl. rewrite path_Join_role by done.
  replace (keyStorageRolePath +:+ "/" +:+ name) with ("role/" +:+ name) by reflexivity.
  by rewrite lookup_insert_eq.
Qed.

Lemma role_write_then_listed_witness :
  ∃ entries,
    pathRolesList None
      (pathRolesWrite Fixture.Compile Fixture.emptyStorage
         (Ok (Fixture.configAllowing [])) CreateOperation
         (Fixture.roleRequest "tester" "tester.example.com" ∅)).2
    = (Some entries, None)
    ∧ "tester" ∈ entries.
Proof.
  apply (role_write_then_listed Fixture.Compile Fixture.emptyStorage
           (Ok (Fixture.configAllowing [])) CreateOperation
           (Fixture.roleRequest "tester" "tester.example.com" ∅) _ "tester").
  - reflexivity.
  - reflexivity.
  - reflexivity.
Defined.

(** X15: after a delete that the store carries out, the name, when it is
    not empty and has no slash, is not among the keys that the list
    returns. *)
Theorem role_delete_then_not_listed (stg : Storage) (name : string) :
  name ≠ "" →
  hasSlash name = false →
  ∃ stg' entries,
    pathRolesDelete None stg name = (None, None, stg')
    ∧ pathRolesList None stg' = (Some entries, None)
    ∧ name ∉ entries.
Proof.
  intros Hne Hslash. eexists _, _. split; [reflexivity|]. split; [reflexivity|].
  rewrite (elem_of_Storage_List _ (keyStorageRolePath +:+ "/") name _ eq_refl Hslash).
  simpl. rewrite path_Join_role by done.
  replace (keyStorageRolePath +:+ "/" +:+ name) with ("role/" +:+ name) by reflexivity.
  rewrite lookup_delete_eq. by intros [? ?].
Qed.

Lemma role_delete_then_not_listed_witness :
  ∃ stg' entries,
    pathRolesDelete None
      (storageHolding "role/tester" (EntryRole (Fixture.testerRole ∅))) "tester"
    = (None, None, stg')
    ∧ pathRolesList None stg' = (Some entries, None)
    ∧ "tester" ∉ entries.
Proof.
  apply (role_delete_then_not_listed
           (storageHolding "role/tester" (EntryRole (Fixture.testerRole ∅))) "tester").
  - discriminate.
  - reflexivity.
Defined.
